(** * Damped wave animation by an explicit finite difference method

    A shallow embedding of the numerical cells of [wave_animation_fdm.ipynb]:
    the constants cell (grid resolution and step sizes), the solution-grid
    cell (initial and boundary conditions) and the explicit time-evolution
    loop.

    Numbers.  The notebook computes with Python numbers and NumPy [float64].
    Here every real quantity is an exact rational in canonical form ([Qc]);
    integer quantities ([nx], lengths, indices) are [Z] or [nat] as in the
    source.  Rounding, overflow, [inf] and [NaN] are therefore outside the
    model: the statements below are kept to what the cells store where, to
    values obtained by evaluating the source's own expression on stored
    entries, and to derived sizes taken as the cell itself derives them;
    where a statement needs the factors of the scheme to be finite numbers,
    that is a hypothesis.
    Arrays are lists read with [!!]; the solution grid [u_x_t] is a list of
    rows indexed by the spatial index [j], each row indexed by the time
    index [l]. *)

From Stdlib Require Import ZArith QArith Qcanon Qround Lia.
From stdpp Require Import base numbers option list.

Local Open Scope Qc_scope.

(** ** Python results: a value or a raised exception *)

Inductive error : Set :=
  | ZeroDivisionError
  | ValueError
  | IndexError.

Definition result (A : Type) : Type := (error + A)%type.

Definition raise {A : Type} (e : error) : result A := inl e.
Definition ret {A : Type} (a : A) : result A := inr a.

Definition bind {A B : Type} (m : result A) (h : A -> result B) : result B :=
  match m with
  | inl e => inl e
  | inr a => h a
  end.

Notation "'let*' x := m 'in' h" := (bind m (fun x => h))
  (at level 10, x name, m at level 100, h at level 200).

Definition succeeds {A : Type} (m : result A) : bool :=
  match m with inl _ => false | inr _ => true end.

(** ** Scalar operations *)

(** Python's true division [a / b]. *)
Definition truediv (a b : Qc) : result Qc :=
  if decide (b = 0) then raise ZeroDivisionError else ret (a / b).

(** Python's [int(q)]: truncation toward zero. *)
Definition int (q : Qc) : Z := Z.quot (Qnum q) (Zpos (Qden q)).

Definition of_nat (i : nat) : Qc := Qc_of_Z (Z.of_nat i).

(** ** Array constructors *)

(** [np.linspace(start, stop, num)] with the default [endpoint=True]:
    a negative [num] is rejected, otherwise sample [j] is
    [start + j * (stop - start)/(num - 1)].  For [num = 1] NumPy returns
    [[start]]; so does this definition, the only sample being [j = 0]. *)
Definition linspace (start stop : Qc) (num : Z) : result (list Qc) :=
  if decide (num < 0)%Z then raise ValueError
  else
    let step := (stop - start) / (Qc_of_Z num - 1) in
    ret ((fun j => start + of_nat j * step) <$> seq 0 (Z.to_nat num)).

(** [np.arange(start, stop, step)]: [ceil((stop - start)/step)] samples
    (none when that is not positive), sample [i] being [start + i*step]. *)
Definition arange (start stop step : Qc) : list Qc :=
  let len := Z.to_nat (Qceiling ((stop - start) / step)) in
  (fun i => start + of_nat i * step) <$> seq 0 len.

(** [a[i]] for a non-negative index. *)
Definition getitem (a : list Qc) (i : nat) : result Qc :=
  match a !! i with
  | Some v => ret v
  | None => raise IndexError
  end.

(** ** The constants cell *)

Record params : Set := {
  L : Qc;
  c : Qc;
  k : Qc;
  t_total : Qc;
  fps_play : Qc
}.

Record constants : Set := {
  par : params;
  nx : Z;
  x_array : list Qc;
  t_array : list Qc;
  dx : Qc;
  dt : Qc
}.

Definition constants_cell (p : params) : result constants :=
  let* q := truediv (c p) (fps_play p) in
  let* r := truediv (L p) q in
  let nx := int r in
  let* xs := linspace 0 (L p) nx in
  let* s := truediv 1 (fps_play p) in
  let ts := arange 0 (t_total p) s in
  let* x1 := getitem xs 1 in
  let* x0 := getitem xs 0 in
  let* t1 := getitem ts 1 in
  let* t0 := getitem ts 0 in
  ret {| par := p; nx := nx; x_array := xs; t_array := ts;
         dx := x1 - x0; dt := t1 - t0 |}.

(** The grid sizes the cell derives, as expressions of the parameters. *)
Definition nx_of (p : params) : Z := int (L p / (c p / fps_play p)).
Definition nt_of (p : params) : nat :=
  length (arange 0 (t_total p) (1 / fps_play p)).

(** The parameters of the notebook. *)
Definition notebook_params : params :=
  {| L := Qc_of_Z 3; c := 1; k := Q2Qc (2 # 10);
     t_total := Qc_of_Z 20; fps_play := Qc_of_Z 30 |}.

(** The Courant number [c*dt/dx] of a discretization. *)
Definition courant (d : constants) : Qc := c (par d) * dt d / dx d.

(** ** The solution grid *)

(** [u_x_t], indexed [u_x_t[j, l]]: a list of [len(x_array)] rows, each of
    [len(t_array)] entries. *)
Abbreviation grid := (list (list Qc)).

(** [np.zeros((n, m))]. *)
Definition zeros (n m : nat) : grid := replicate n (replicate m 0).

(** [u[j, l]] for non-negative indices; [None] when out of range. *)
Definition get (u : grid) (j l : nat) : option Qc := u !! j ≫= (.!! l).

(** The entry as a number, for use inside arithmetic. *)
Definition entry (u : grid) (j l : nat) : Qc := default 0 (get u j l).

(** [shape n m u]: [u] has [n] rows of [m] entries each. *)
Definition shape (n m : nat) (u : grid) : Prop :=
  length u = n /\ Forall (fun row => length row = m) u.

(** [all_zero n m u]: every entry of the [n] by [m] grid [u] is zero. *)
Definition all_zero (n m : nat) (u : grid) : Prop :=
  forall j l, (j < n)%nat -> (l < m)%nat -> get u j l = Some 0.

(** [u[:, l]], the time slice at index [l].  The loop reads the time
    indices [l] and [l-1] with [1 <= l <= len(t_array)-2] only, which are
    inside the grid. *)
Definition column (l : nat) (u : grid) : list Qc :=
  (fun row => default 0 (row !! l)) <$> u.

(** [u[lo:lo+len(v), l] = v]: entry [v[i]] is stored at [u[lo+i, l]].  The
    cells below only use it with a time index [l] inside the grid and with
    [v] exactly as long as the slice, the cases in which NumPy accepts the
    assignment. *)
Definition set_column (lo l : nat) (v : list Qc) (u : grid) : grid :=
  imap (fun j row =>
          if decide (lo <= j)%nat
          then from_option (fun x => <[l := x]> row) row (v !! (j - lo)%nat)
          else row) u.

(** [u[0, :] = v]. *)
Definition set_row0 (v : list Qc) (u : grid) : grid := <[0%nat := v]> u.

(** Whole-array arithmetic. *)
Definition vadd (a b : list Qc) : list Qc := zip_with Qcplus a b.
Definition vsub (a b : list Qc) : list Qc := zip_with Qcminus a b.
Definition vscale (s : Qc) (a : list Qc) : list Qc := Qcmult s <$> a.
Definition vtimes (a : list Qc) (s : Qc) : list Qc := (fun x => x * s) <$> a.

(** The three slices of the loop body: [a[1:-1]], [a[2:]] and [a[:-2]]. *)
Definition inner (a : list Qc) : list Qc := take (length a - 2) (drop 1 a).
Definition from2 (a : list Qc) : list Qc := drop 2 a.
Definition upto_m2 (a : list Qc) : list Qc := take (length a - 2) a.

(** ** The solution-grid cell: initial and boundary conditions *)

(** [f], [g] and [phi] are applied to a whole axis at once, sample by
    sample.  The cell addresses the time indices [0] and [1] and the row
    [0]; they exist whenever the constants cell has succeeded, which has
    read [x_array[1]] and [t_array[1]] (lemma [run_shape] below). *)
Section Conditions.
Variables f g phi : Qc -> Qc.

Definition conditions_cell (d : constants) : grid :=
  let u0 := zeros (length (x_array d)) (length (t_array d)) in
  (* initial conditions *)
  let u1 := set_column 0 0 (f <$> x_array d) u0 in
  let u2 := set_column 0 1
              (vadd (vtimes (g <$> x_array d) (dt d)) (f <$> x_array d))
              u1 in
  (* boundary conditions *)
  set_row0 (phi <$> t_array d) u2.
End Conditions.

(** ** The explicit time-evolution cell *)

Definition factor1 (d : constants) : Qc := / (1 + k (par d) * dt d / 2).
Definition factor2 (d : constants) : Qc := (c (par d) * dt d / dx d) ^ 2.
Definition factor3 (d : constants) : Qc := k (par d) * dt d / 2.

(** The damping term [k*dt] of a discretization is non-negative and far
    inside the range of [float64].  Then [1 + k*dt/2] is at least [1], and
    the three factors are finite numbers, in the notebook's floating point as
    in exact arithmetic.  Every damping coefficient [k >= 0] of ordinary
    size, with a positive sampling rate, is of this kind. *)
Definition damping_in_range (d : constants) : Prop :=
  0 <= k (par d) * dt d /\ k (par d) * dt d <= Qc_of_Z (2 ^ 1000).

(** The update formula on scalars. *)
Definition update (f1 f2 f3 right mid left prev : Qc) : Qc :=
  f1 * (f2 * (right - 2 * mid + left) + 2 * mid - prev + f3 * prev).

Section Stepper.
Variables f1 f2 f3 : Qc.

(** The right-hand side of the assignment in the loop body, for the time
    index [l]:
    [factor1 * (factor2 * (u[2:, l] - 2*u[1:-1, l] + u[:-2, l])
                + 2*u[1:-1, l] - u[1:-1, l-1] + factor3 * u[1:-1, l-1])]. *)
Definition rhs (u : grid) (l : nat) : list Qc :=
  let right := from2 (column l u) in
  let mid := inner (column l u) in
  let left := upto_m2 (column l u) in
  let prev := inner (column (l - 1) u) in
  vscale f1
    (vadd (vsub (vadd (vscale f2 (vadd (vsub right (vscale 2 mid)) left))
                      (vscale 2 mid))
                prev)
          (vscale f3 prev)).

(** One pass of the loop body: [u[1:-1, l+1] = rhs]. *)
Definition step (u : grid) (l : nat) : grid :=
  set_column 1 (l + 1) (rhs u l) u.

(** The loop over [range(1, m + 1)]. *)
Definition steps (m : nat) (u : grid) : grid := foldl step u (seq 1 m).
End Stepper.

(** [for l in range(1, len(t_array)-1)], the factors being computed once. *)
Definition stepper_cell (d : constants) (u : grid) : grid :=
  steps (factor1 d) (factor2 d) (factor3 d) (length (t_array d) - 2) u.

(** ** The whole run *)

Definition run (p : params) (f g phi : Qc -> Qc) : result (constants * grid) :=
  let* d := constants_cell p in
  ret (d, stepper_cell d (conditions_cell f g phi d)).

(** ** Concrete runs

    A small run (four spatial samples, five time samples) with initial data
    and forcing that differ at the corner of the grid, a run whose grid has
    no interior sample, and a run with negative wave speed, duration and
    sampling rate. *)

Definition small_params : params :=
  {| L := Qc_of_Z 4; c := 1; k := Q2Qc (2 # 10);
     t_total := Qc_of_Z 5; fps_play := 1 |}.

Definition coarse_params : params :=
  {| L := Qc_of_Z 2; c := 1; k := Q2Qc (2 # 10);
     t_total := Qc_of_Z 5; fps_play := 1 |}.

Definition reversed_params : params :=
  {| L := Qc_of_Z 4; c := - 1; k := Q2Qc (2 # 10);
     t_total := - Qc_of_Z 5; fps_play := - 1 |}.

Definition ramp (x : Qc) : Qc := x + 1.
Definition unit_velocity (x : Qc) : Qc := 1.
Definition forcing (t : Qc) : Qc := Qc_of_Z 10 + t.
Definition other_forcing (t : Qc) : Qc := t * t.
Definition zero (x : Qc) : Qc := 0.

(** Placeholder for the unused branch of [small_constants]. *)
Definition no_constants : constants :=
  {| par := small_params; nx := 0; x_array := []; t_array := [];
     dx := 0; dt := 0 |}.

Definition small_constants : constants :=
  Eval vm_compute in
    match constants_cell small_params with inr d => d | inl _ => no_constants end.

Definition coarse_constants : constants :=
  Eval vm_compute in
    match constants_cell coarse_params with inr d => d | inl _ => no_constants end.

Definition coarse_grid : grid :=
  Eval vm_compute in
    stepper_cell coarse_constants
      (conditions_cell ramp unit_velocity forcing coarse_constants).

Definition small_grid : grid :=
  Eval vm_compute in
    stepper_cell small_constants
      (conditions_cell ramp unit_velocity forcing small_constants).

Definition small_grid' : grid :=
  Eval vm_compute in
    stepper_cell small_constants
      (conditions_cell ramp unit_velocity other_forcing small_constants).

Definition small_zero_grid : grid :=
  Eval vm_compute in
    stepper_cell small_constants (conditions_cell zero zero zero small_constants).

(** ** The animation cell

    What each call of the animation callback computes from the finished
    grid: the curve handed to [line.set_ydata], the time shown in the title
    and the progress that is printed.  Drawing and printing themselves are
    Matplotlib's and Python's. *)
Module Animation.

Record frame : Set := {
  y_data : list Qc;
  t_curr : Qc;
  prog : Qc
}.

(** [u_x_t[:, index]]: the entry of index [index] of every row of the
    grid, an [IndexError] when the rows have no such entry.  (A grid without
    rows has nothing to read; the grid of a run has at least two.) *)
Definition time_slice (u : grid) (index : nat) : result (list Qc) :=
  match mapM (fun row : list Qc => row !! index) u with
  | Some y => ret y
  | None => raise IndexError
  end.

(** [update(index)]. *)
Definition update (d : constants) (u : grid) (index : nat) : result frame :=
  let* y := time_slice u index in
  let* t := getitem (t_array d) index in
  let* pr := truediv (of_nat index) (of_nat (length (t_array d))) in
  ret {| y_data := y; t_curr := t; prog := pr |}.

(** [frames=range(len(t_array))]. *)
Definition frames (d : constants) : list nat := seq 0 (length (t_array d)).

(** [initial_data = u_x_t[:, 0]], the curve of the initial plot. *)
Definition initial_data (u : grid) : list Qc := column 0 u.

End Animation.

(** Placeholder for the unused branch of [small_frame]. *)
Definition no_frame : Animation.frame :=
  {| Animation.y_data := []; Animation.t_curr := 0; Animation.prog := 0 |}.

(** The frame of the small run at the time index [3]. *)
Definition small_frame : Animation.frame :=
  Eval vm_compute in
    match Animation.update small_constants small_grid 3 with
    | inr fr => fr
    | inl _ => no_frame
    end.

(** * Properties *)

(** ** Arrays and the grid *)

Lemma shape_row n m u j row : shape n m u -> u !! j = Some row -> length row = m.
Proof. intros [_ H] Hj. exact (proj1 (Forall_lookup _ _) H j row Hj). Qed.

Lemma get_is_Some n m u j l :
  shape n m u -> (j < n)%nat -> (l < m)%nat -> is_Some (get u j l).
Proof.
  intros Hs Hj Hl. unfold get.
  destruct (lookup_lt_is_Some_2 u j) as [row Hrow]; [destruct Hs; lia|].
  rewrite Hrow. simpl. apply lookup_lt_is_Some_2.
  rewrite (shape_row _ _ _ _ _ Hs Hrow). exact Hl.
Qed.

Lemma get_entry u j l x : get u j l = Some x -> entry u j l = x.
Proof. unfold entry. intros ->. reflexivity. Qed.

Lemma get_Some_entry n m u j l :
  shape n m u -> (j < n)%nat -> (l < m)%nat -> get u j l = Some (entry u j l).
Proof.
  intros Hs Hj Hl. destruct (get_is_Some _ _ _ _ _ Hs Hj Hl) as [x Hx].
  rewrite (get_entry _ _ _ _ Hx). exact Hx.
Qed.

Lemma shape_zeros n m : shape n m (zeros n m).
Proof.
  split; [apply length_replicate|].
  apply Forall_replicate, length_replicate.
Qed.

Lemma get_zeros n m j l :
  (j < n)%nat -> (l < m)%nat -> get (zeros n m) j l = Some 0.
Proof.
  intros Hj Hl. unfold get, zeros.
  rewrite (lookup_replicate_2 _ _ _ Hj). simpl.
  apply lookup_replicate_2, Hl.
Qed.

Lemma length_column l u : length (column l u) = length u.
Proof. apply length_fmap. Qed.

Lemma lookup_column l u j :
  (j < length u)%nat -> column l u !! j = Some (entry u j l).
Proof.
  intros Hj. unfold column, entry, get. rewrite list_lookup_fmap.
  destruct (lookup_lt_is_Some_2 u j Hj) as [row ->]. reflexivity.
Qed.

(** *** Column assignment *)

Lemma length_set_column lo l v u : length (set_column lo l v u) = length u.
Proof. apply length_imap. Qed.

Lemma shape_set_column n m lo l v u :
  shape n m u -> shape n m (set_column lo l v u).
Proof.
  intros [Hn Hm]. split; [rewrite length_set_column; exact Hn|].
  apply Forall_lookup. intros j row. unfold set_column.
  rewrite list_lookup_imap. destruct (u !! j) as [r|] eqn:Hr; [|discriminate].
  pose proof (proj1 (Forall_lookup _ _) Hm j r Hr) as Hlen.
  simpl. intros [= <-]. destruct (decide (lo <= j)%nat); [|exact Hlen].
  destruct (v !! (j - lo)%nat); simpl; [|exact Hlen].
  rewrite length_insert. exact Hlen.
Qed.

(** An entry of another time index, of a row above the slice or of a row
    past the end of [v] is not touched. *)
Lemma get_set_column_frame lo l v u j l' :
  l' <> l \/ (j < lo)%nat \/ (lo + length v <= j)%nat ->
  get (set_column lo l v u) j l' = get u j l'.
Proof.
  intros H. unfold get, set_column. rewrite list_lookup_imap.
  destruct (u !! j) as [row|]; [simpl|reflexivity].
  destruct (decide (lo <= j)%nat) as [Hlo|]; [|reflexivity].
  destruct (v !! (j - lo)%nat) as [x|] eqn:Hx; [simpl|reflexivity].
  apply lookup_lt_Some in Hx.
  destruct H as [H|[H|H]]; [|lia..].
  apply list_lookup_insert_ne. congruence.
Qed.

(** An entry of the slice receives the matching element of [v]. *)
Lemma get_set_column_hit n m lo l v u j x :
  shape n m u -> (j < n)%nat -> (l < m)%nat -> (lo <= j)%nat ->
  v !! (j - lo)%nat = Some x ->
  get (set_column lo l v u) j l = Some x.
Proof.
  intros Hs Hj Hl Hlo Hx. unfold get, set_column. rewrite list_lookup_imap.
  destruct (lookup_lt_is_Some_2 u j) as [row Hrow]; [destruct Hs; lia|].
  rewrite Hrow. simpl. rewrite decide_True by exact Hlo. rewrite Hx. simpl.
  apply list_lookup_insert_eq. rewrite (shape_row _ _ _ _ _ Hs Hrow). exact Hl.
Qed.

(** *** Row assignment *)

Lemma shape_set_row0 n m v u :
  shape n m u -> length v = m -> shape n m (set_row0 v u).
Proof.
  intros [Hn Hm] Hv. split; [unfold set_row0; rewrite length_insert; exact Hn|].
  apply Forall_insert; assumption.
Qed.

Lemma get_set_row0_other v u j l :
  (0 < j)%nat -> get (set_row0 v u) j l = get u j l.
Proof.
  intros Hj. unfold get, set_row0.
  rewrite list_lookup_insert_ne by lia. reflexivity.
Qed.

Lemma get_set_row0_hit v u l :
  (0 < length u)%nat -> get (set_row0 v u) 0 l = v !! l.
Proof.
  intros Hu. unfold get, set_row0.
  rewrite list_lookup_insert_eq by exact Hu. reflexivity.
Qed.

(** ** One step of the time evolution *)

Section StepperFacts.
Variables f1 f2 f3 : Qc.

Lemma lookup_inner l u i :
  (i + 2 < length u)%nat ->
  inner (column l u) !! i = Some (entry u (i + 1) l).
Proof.
  intros Hi. unfold inner. rewrite length_column.
  rewrite lookup_take_lt by lia. rewrite lookup_drop.
  rewrite lookup_column by lia. do 2 f_equal. lia.
Qed.

Lemma lookup_rhs u l i :
  (i + 2 < length u)%nat ->
  rhs f1 f2 f3 u l !! i
  = Some (update f1 f2 f3 (entry u (i + 2) l) (entry u (i + 1) l)
            (entry u i l) (entry u (i + 1) (l - 1))).
Proof.
  intros Hi.
  assert (Hr : from2 (column l u) !! i = Some (entry u (i + 2) l)).
  { unfold from2. rewrite lookup_drop, lookup_column by lia.
    do 2 f_equal. lia. }
  assert (Hl : upto_m2 (column l u) !! i = Some (entry u i l)).
  { unfold upto_m2. rewrite length_column, lookup_take_lt by lia.
    apply lookup_column. lia. }
  unfold rhs, vscale, vadd, vsub.
  repeat (rewrite ?list_lookup_fmap, ?lookup_zip_with).
  rewrite Hr, Hl, !lookup_inner by exact Hi. reflexivity.
Qed.

Lemma length_rhs u l : length (rhs f1 f2 f3 u l) = (length u - 2)%nat.
Proof.
  unfold rhs, vscale, vadd, vsub, inner, from2, upto_m2.
  repeat (rewrite ?length_fmap, ?length_zip_with, ?length_take,
            ?length_drop, ?length_column).
  lia.
Qed.

Lemma shape_step n m u l : shape n m u -> shape n m (step f1 f2 f3 u l).
Proof. apply shape_set_column. Qed.

(** The step for [l] stores the update formula at every interior [j] of
    time index [l+1]. *)
Lemma get_step_hit n m u l j :
  shape n m u -> (1 <= j)%nat -> (j + 1 < n)%nat -> (l + 1 < m)%nat ->
  get (step f1 f2 f3 u l) j (l + 1)
  = Some (update f1 f2 f3 (entry u (j + 1) l) (entry u j l)
            (entry u (j - 1) l) (entry u j (l - 1))).
Proof.
  intros Hs Hj Hn Hl. unfold step.
  apply (get_set_column_hit n m); [exact Hs|lia|exact Hl|exact Hj|].
  destruct Hs as [Hlen _]. rewrite lookup_rhs by lia.
  replace (j - 1 + 2)%nat with (j + 1)%nat by lia.
  replace (j - 1 + 1)%nat with j by lia. reflexivity.
Qed.

(** It touches nothing else. *)
Lemma get_step_frame u l j l' :
  l' <> (l + 1)%nat \/ j = 0%nat \/ (length u <= j + 1)%nat ->
  get (step f1 f2 f3 u l) j l' = get u j l'.
Proof.
  intros H. unfold step. apply get_set_column_frame.
  rewrite length_rhs. lia.
Qed.
End StepperFacts.

(** ** The loop *)

Section LoopFacts.
Variables f1 f2 f3 : Qc.

Lemma steps_S m u :
  steps f1 f2 f3 (S m) u = step f1 f2 f3 (steps f1 f2 f3 m u) (S m).
Proof. unfold steps. rewrite seq_S, foldl_app. reflexivity. Qed.

Lemma shape_steps n m0 m u : shape n m0 u -> shape n m0 (steps f1 f2 f3 m u).
Proof.
  intros Hs. induction m as [|m IH]; [exact Hs|].
  rewrite steps_S. apply shape_step, IH.
Qed.

(** The loop leaves the two boundary rows, the two seeded time indices and
    the time indices it has not reached as they were. *)
Lemma get_steps_frame n m0 m u j l' :
  shape n m0 u ->
  j = 0%nat \/ (n <= j + 1)%nat \/ (l' < 2)%nat \/ (m + 1 < l')%nat ->
  get (steps f1 f2 f3 m u) j l' = get u j l'.
Proof.
  intros Hs. induction m as [|m IH]; intros H; [reflexivity|].
  rewrite steps_S, get_step_frame.
  - apply IH. lia.
  - destruct (shape_steps n m0 m u Hs) as [-> _]. lia.
Qed.

(** Once the loop has passed the time index [m], the time indices up to
    [m+1] never change again. *)
Lemma get_steps_stable m m' u j l' :
  (m <= m')%nat -> (l' <= m + 1)%nat ->
  get (steps f1 f2 f3 m' u) j l' = get (steps f1 f2 f3 m u) j l'.
Proof.
  intros Hm Hl. induction Hm as [|m' Hm IH]; [reflexivity|].
  rewrite steps_S, get_step_frame; [exact IH|]. left. lia.
Qed.

Lemma entry_steps_stable m m' u j l' :
  (m <= m')%nat -> (l' <= m + 1)%nat ->
  entry (steps f1 f2 f3 m' u) j l' = entry (steps f1 f2 f3 m u) j l'.
Proof. intros Hm Hl. unfold entry. rewrite (get_steps_stable m m'); done. Qed.

(** The finished grid satisfies the recurrence at every entry the loop
    has produced. *)
Lemma get_steps_recurrence n m0 m u j l :
  shape n m0 u ->
  (1 <= l <= m)%nat -> (l + 1 < m0)%nat -> (1 <= j)%nat -> (j + 1 < n)%nat ->
  let v := steps f1 f2 f3 m u in
  get v j (l + 1)
  = Some (update f1 f2 f3 (entry v (j + 1) l) (entry v j l)
            (entry v (j - 1) l) (entry v j (l - 1))).
Proof.
  intros Hs [Hl1 Hlm] Hl Hj Hn v. subst v.
  destruct l as [|l]; [lia|].
  rewrite (get_steps_stable (S l) m) by lia.
  rewrite !(entry_steps_stable l m) by lia.
  rewrite steps_S.
  apply (get_step_hit f1 f2 f3 n m0); try assumption.
  apply shape_steps, Hs.
Qed.
End LoopFacts.

(** ** The constants cell *)

Lemma of_nat_0 : of_nat 0 = 0.
Proof. apply Qc_is_canon. reflexivity. Qed.

Lemma of_nat_1 : of_nat 1 = 1.
Proof. apply Qc_is_canon. reflexivity. Qed.

Lemma length_linspace start stop num xs :
  linspace start stop num = inr xs -> length xs = Z.to_nat num.
Proof.
  unfold linspace. destruct (decide (num < 0)%Z); [discriminate|].
  intros [= <-]. rewrite length_fmap, length_seq. reflexivity.
Qed.

Lemma lookup_arange start stop step i :
  (i < length (arange start stop step))%nat ->
  arange start stop step !! i = Some (start + of_nat i * step).
Proof.
  unfold arange. rewrite length_fmap, length_seq. intros Hi.
  rewrite list_lookup_fmap, lookup_seq_lt by exact Hi. reflexivity.
Qed.

Lemma div_nonzero (a b : Qc) : a <> 0 -> b <> 0 -> a / b <> 0.
Proof.
  intros Ha Hb H. apply Ha.
  rewrite <- (Qcmult_div_r a b Hb), H. ring.
Qed.

(** What a successful constants cell has computed. *)
Lemma constants_cell_inv p d :
  constants_cell p = inr d ->
  fps_play p <> 0 /\ c p <> 0 /\ par d = p /\ nx d = nx_of p /\
  (2 <= nx d)%Z /\ length (x_array d) = Z.to_nat (nx d) /\
  (forall j, (j < length (x_array d))%nat ->
     x_array d !! j = Some (of_nat j * dx d)) /\
  (2 <= length (t_array d))%nat /\ length (t_array d) = nt_of p /\
  (forall l, (l < length (t_array d))%nat ->
     t_array d !! l = Some (of_nat l * dt d)) /\
  dx d = L p / (Qc_of_Z (nx d) - 1) /\ dt d = 1 / fps_play p.
Proof.
  unfold constants_cell, truediv, bind, raise, ret. intros H.
  destruct (decide (fps_play p = 0)) as [|Hf]; [discriminate|].
  destruct (decide (c p / fps_play p = 0)) as [|Hq]; [discriminate|].
  fold (nx_of p) in H.
  destruct (linspace 0 (L p) (nx_of p)) as [|xs] eqn:Hxs; [discriminate|].
  pose proof (length_linspace _ _ _ _ Hxs) as Hlen.
  unfold linspace in Hxs.
  destruct (decide (nx_of p < 0)%Z) as [|Hnx]; [discriminate|].
  injection Hxs as Hxs. unfold getitem in H.
  destruct (xs !! 1%nat) as [x1|] eqn:Hx1; [|discriminate].
  destruct (xs !! 0%nat) as [x0|] eqn:Hx0; [|discriminate].
  destruct (arange 0 (t_total p) (1 / fps_play p) !! 1%nat) as [t1|] eqn:Ht1;
    [|discriminate].
  destruct (arange 0 (t_total p) (1 / fps_play p) !! 0%nat) as [t0|] eqn:Ht0;
    [|discriminate].
  injection H as <-. simpl.
  pose proof (lookup_lt_Some _ _ _ Hx1) as Hx1len.
  pose proof (lookup_lt_Some _ _ _ Ht1) as Ht1len.
  assert (Hdx : x1 - x0 = L p / (Qc_of_Z (nx_of p) - 1)).
  { rewrite <- Hxs in Hx1, Hx0.
    rewrite list_lookup_fmap, lookup_seq_lt in Hx1, Hx0 by lia.
    injection Hx1 as <-. injection Hx0 as <-.
    simpl. rewrite of_nat_0, of_nat_1. unfold Qcdiv. ring. }
  assert (Hdt : t1 - t0 = 1 / fps_play p).
  { rewrite lookup_arange in Ht1, Ht0 by lia.
    injection Ht1 as <-. injection Ht0 as <-.
    rewrite of_nat_0, of_nat_1. ring. }
  repeat split; try done; try lia.
  - intros Hc. apply Hq. rewrite Hc. unfold Qcdiv. ring.
  - intros j Hj. rewrite Hdx, <- Hxs.
    rewrite list_lookup_fmap, lookup_seq_lt by lia.
    simpl. f_equal. unfold Qcdiv. ring.
  - intros l Hl. rewrite Hdt, lookup_arange by exact Hl. f_equal. ring.
Qed.

(** ** The solution-grid cell *)

Section ConditionsFacts.
Variables f g phi : Qc -> Qc.
Variable d : constants.

Abbreviation n := (length (x_array d)).
Abbreviation m := (length (t_array d)).

Lemma shape_conditions_cell : shape n m (conditions_cell f g phi d).
Proof.
  unfold conditions_cell. apply shape_set_row0; [|apply length_fmap].
  do 2 apply shape_set_column. apply shape_zeros.
Qed.

(** The row [j = 0] is the boundary forcing, at every time index. *)
Lemma get_conditions_row0 l :
  (0 < n)%nat -> get (conditions_cell f g phi d) 0 l = phi <$> t_array d !! l.
Proof.
  intros Hn. unfold conditions_cell.
  rewrite get_set_row0_hit, list_lookup_fmap; [reflexivity|].
  rewrite !length_set_column. unfold zeros. rewrite length_replicate.
  exact Hn.
Qed.

(** Below the first row, time index 0 holds the initial displacement. *)
Lemma get_conditions_col0 j :
  (0 < j)%nat -> (0 < m)%nat ->
  get (conditions_cell f g phi d) j 0 = f <$> x_array d !! j.
Proof.
  intros Hj Hm. unfold conditions_cell.
  rewrite get_set_row0_other by exact Hj.
  rewrite get_set_column_frame by (left; lia).
  destruct (x_array d !! j) as [x|] eqn:Hx.
  - apply (get_set_column_hit n m); [apply shape_zeros| |exact Hm|lia|].
    + apply (lookup_lt_Some _ _ _ Hx).
    + rewrite Nat.sub_0_r, list_lookup_fmap, Hx. reflexivity.
  - apply lookup_ge_None_1 in Hx. unfold get, set_column.
    rewrite list_lookup_imap. unfold zeros.
    rewrite (proj1 (lookup_replicate_None _ _ _) Hx). reflexivity.
Qed.

(** Time index 1 holds the forward-difference seed. *)
Lemma get_conditions_col1 j :
  (0 < j)%nat -> (1 < m)%nat ->
  get (conditions_cell f g phi d) j 1
  = (fun x => g x * dt d + f x) <$> x_array d !! j.
Proof.
  intros Hj Hm. unfold conditions_cell.
  rewrite get_set_row0_other by exact Hj.
  destruct (x_array d !! j) as [x|] eqn:Hx.
  - apply (get_set_column_hit n m);
      [apply shape_set_column, shape_zeros| |exact Hm|lia|].
    + apply (lookup_lt_Some _ _ _ Hx).
    + unfold vadd, vtimes.
      rewrite Nat.sub_0_r, lookup_zip_with, !list_lookup_fmap, Hx.
      reflexivity.
  - apply lookup_ge_None_1 in Hx. unfold get, set_column.
    rewrite !list_lookup_imap. unfold zeros.
    rewrite (proj1 (lookup_replicate_None _ _ _) Hx). reflexivity.
Qed.

(** Everything else is still the zero of the allocation. *)
Lemma get_conditions_zero j l :
  (0 < j < n)%nat -> (2 <= l < m)%nat ->
  get (conditions_cell f g phi d) j l = Some 0.
Proof.
  intros Hj Hl. unfold conditions_cell.
  rewrite get_set_row0_other by lia.
  rewrite !get_set_column_frame by (left; lia).
  apply get_zeros; lia.
Qed.
End ConditionsFacts.

(** ** The whole run *)

Lemma run_inv p f g phi d u :
  run p f g phi = inr (d, u) ->
  constants_cell p = inr d /\ u = stepper_cell d (conditions_cell f g phi d).
Proof.
  unfold run, bind, ret. destruct (constants_cell p) as [e|d']; [discriminate|].
  intros [= -> ->]. split; reflexivity.
Qed.

(** A finished run: the shape of its grid and the sizes it relies on. *)
Lemma run_shape p f g phi d u :
  run p f g phi = inr (d, u) ->
  (2 <= length (x_array d))%nat /\ (2 <= length (t_array d))%nat /\
  shape (length (x_array d)) (length (t_array d)) (conditions_cell f g phi d) /\
  shape (length (x_array d)) (length (t_array d)) u.
Proof.
  intros H. destruct (run_inv _ _ _ _ _ _ H) as [Hd ->].
  destruct (constants_cell_inv _ _ Hd)
    as (_ & _ & _ & _ & Hnx & Hlen & _ & Hnt & _).
  pose proof (shape_conditions_cell f g phi d) as Hs.
  split; [lia|]. split; [lia|]. split; [exact Hs|].
  unfold stepper_cell. apply shape_steps, Hs.
Qed.

(** The two seeded time indices of a finished run, away from the row
    [j = 0]. *)
Lemma get_run_seed p f g phi d u j x :
  run p f g phi = inr (d, u) ->
  (1 <= j)%nat ->
  x_array d !! j = Some x ->
  get u j 0 = Some (f x) /\ get u j 1 = Some (g x * dt d + f x).
Proof.
  intros H Hj Hx.
  destruct (run_shape _ _ _ _ _ _ H) as (_ & Hm & Hs & _).
  destruct (run_inv _ _ _ _ _ _ H) as [_ ->].
  unfold stepper_cell.
  rewrite !(get_steps_frame _ _ _ _ _ _ _ _ _ Hs) by lia.
  rewrite get_conditions_col0, get_conditions_col1 by lia.
  rewrite Hx. auto.
Qed.

(** Zero data stay zero: one pass of the loop maps a grid of zeros to a grid
    of zeros. *)
Lemma update_zero f1 f2 f3 : update f1 f2 f3 0 0 0 0 = 0.
Proof. unfold update. ring. Qed.

Lemma all_zero_step f1 f2 f3 n m u l :
  shape n m u -> all_zero n m u -> all_zero n m (step f1 f2 f3 u l).
Proof.
  intros Hs Hz j l' Hj Hl'.
  destruct (decide (l' = (l + 1)%nat /\ (1 <= j)%nat /\ (j + 1 < n)%nat))
    as [(-> & Hj1 & Hj2)|Hno].
  - rewrite (get_step_hit f1 f2 f3 n m) by (assumption || lia).
    rewrite !(get_entry u _ _ 0) by (apply Hz; lia).
    rewrite update_zero. reflexivity.
  - rewrite get_step_frame; [apply Hz; assumption|].
    destruct Hs as [-> _]. lia.
Qed.

Lemma all_zero_steps f1 f2 f3 n m k u :
  shape n m u -> all_zero n m u -> all_zero n m (steps f1 f2 f3 k u).
Proof.
  intros Hs Hz. induction k as [|k IH]; [exact Hz|].
  rewrite steps_S. apply all_zero_step; [apply shape_steps, Hs|exact IH].
Qed.

(** With a damping coefficient [k >= 0] and a sampling rate [fps > 0] the
    number inverted by [factor1] is positive, so that the factor is a true
    inverse. *)
Lemma factor1_denominator_pos p d :
  constants_cell p = inr d -> 0 <= k p -> 0 < fps_play p ->
  0 < 1 + k (par d) * dt d / 2.
Proof.
  intros H Hk Hfps.
  destruct (constants_cell_inv _ _ H)
    as (_ & _ & -> & _ & _ & _ & _ & _ & _ & _ & _ & ->).
  apply Qcplus_pos_nonneg; [reflexivity|].
  unfold Qcdiv. rewrite Qcmult_1_l.
  repeat apply Qcmult_nonneg_nonneg; try exact Hk.
  - apply Qclt_le_weak, Qcinv_pos, Hfps.
  - apply Qclt_le_weak, Qcinv_pos. reflexivity.
Qed.

(** With a damping term in range, the number inverted by [factor1] is at
    least [1]. *)
Lemma damping_in_range_denominator d :
  damping_in_range d -> 1 <= 1 + k (par d) * dt d / 2.
Proof.
  intros [H0 _].
  rewrite <- (Qcplus_0_r 1) at 1.
  apply (proj1 (Qcplus_le_mono_l 0 (k (par d) * dt d / 2) 1)).
  unfold Qcdiv. apply Qcmult_nonneg_nonneg; [exact H0|].
  apply Qclt_le_weak, Qcinv_pos. reflexivity.
Qed.

(** ** The Courant number *)

(** [int] of a number that truncates to at least 2 does not exceed it. *)
Lemma int_le (r : Qc) : (2 <= int r)%Z -> Qc_of_Z (int r) <= r.
Proof.
  unfold int. intros H.
  assert (Hnum : (0 <= Qnum r)%Z).
  { destruct (Z.lt_ge_cases (Qnum r) 0) as [Hneg|Hpos]; [|exact Hpos].
    exfalso.
    assert (Hq : (0 <= Z.quot (- Qnum r) (Z.pos (Qden r)))%Z) by (apply Z.quot_pos; lia).
    rewrite Z.quot_opp_l in Hq by lia. lia. }
  rewrite Z.quot_div_nonneg by lia.
  unfold Qcle. simpl. destruct r as [[n dn] Hr]. simpl in *.
  apply (Qfloor_le (n # dn)).
Qed.

(** On every discretization the cell produces, [c*dt/dx] is strictly below
    one: the axis has [nx] samples, hence [nx - 1] intervals of width
    [L/(nx-1)], while [nx] itself does not exceed [L/(c*dt)]. *)
Lemma courant_lt_1 p d : constants_cell p = inr d -> courant d < 1.
Proof.
  intros H.
  destruct (constants_cell_inv _ _ H)
    as (Hf & Hc & Hp & Hnx & Hnx2 & _ & _ & _ & _ & _ & Hdx & Hdt).
  set (r := L p / (c p / fps_play p)).
  set (N := Qc_of_Z (nx d)).
  assert (HN : N <= r).
  { unfold N. rewrite Hnx. apply int_le. change (2 <= nx_of p)%Z. lia. }
  assert (HN2 : 2 <= N).
  { unfold N. rewrite <- Z2Qc_inj_2. exact (proj1 (Z2Qc_inj_le 2 (nx d)) Hnx2). }
  assert (HN1 : N - 1 <> 0).
  { intros E. assert (E1 : N = 1) by (rewrite <- (Qcplus_0_l 1), <- E; ring).
    rewrite E1 in HN2. revert HN2. vm_compute. congruence. }
  assert (Hr : 0 < r).
  { apply Qclt_le_trans with N; [|exact HN].
    apply Qclt_le_trans with 2; [reflexivity|exact HN2]. }
  assert (HL : L p <> 0).
  { intros E. unfold r in Hr. rewrite E in Hr. unfold Qcdiv in Hr.
    rewrite Qcmult_0_l in Hr. revert Hr. vm_compute. congruence. }
  assert (Hcr : courant d * r = N - 1).
  { unfold courant, r. rewrite Hp, Hdx, Hdt. fold N. field. auto. }
  apply (Qcmult_lt_mono_pos_r _ _ r Hr). rewrite Hcr, Qcmult_1_l.
  apply Qclt_le_trans with N; [|exact HN].
  apply Qclt_minus_iff. replace (N + - (N - 1)) with 1 by ring. reflexivity.
Qed.

(** Inside its bounds, every entry of a finished grid exists, and [entry]
    is its value. *)
Lemma run_get_entry p f g phi d u j l :
  run p f g phi = inr (d, u) ->
  (j < length (x_array d))%nat -> (l < length (t_array d))%nat ->
  get u j l = Some (entry u j l).
Proof.
  intros H. destruct (run_shape _ _ _ _ _ _ H) as (_ & _ & _ & Hs).
  apply get_Some_entry, Hs.
Qed.

(** * The properties of the specification *)

(** C2.  In the finished grid, every entry [u[j, l+1]] with
    [1 <= l <= nt-2] and [1 <= j <= nx-2] equals
    [factor1 * (factor2 * (u[j+1,l] - 2*u[j,l] + u[j-1,l]) + 2*u[j,l]
    - u[j,l-1] + factor3 * u[j,l-1])] read off the finished grid itself,
    where [factor1 = 1/(1 + k*dt/2)], [factor2 = (c*dt/dx)^2] and
    [factor3 = k*dt/2] are the same for every [j] and [l]: the entry is a
    function of the four entries [u[j-1,l]], [u[j,l]], [u[j+1,l]] and
    [u[j,l-1]] only, all of which lie inside the grid (lemma
    [run_get_entry]). *)
Theorem interior_recurrence p f g phi d u j l :
  run p f g phi = inr (d, u) ->
  (1 <= l)%nat -> (l + 2 <= length (t_array d))%nat ->
  (1 <= j)%nat -> (j + 2 <= length (x_array d))%nat ->
  get u j (l + 1)
  = Some (/ (1 + k p * dt d / 2) *
            ((c p * dt d / dx d) ^ 2 *
               (entry u (j + 1) l - 2 * entry u j l + entry u (j - 1) l)
             + 2 * entry u j l - entry u j (l - 1)
             + k p * dt d / 2 * entry u j (l - 1))).
Proof.
  intros H Hl1 Hl2 Hj1 Hj2.
  destruct (run_shape _ _ _ _ _ _ H) as (_ & _ & Hs & _).
  destruct (run_inv _ _ _ _ _ _ H) as [Hd ->].
  destruct (constants_cell_inv _ _ Hd) as (_ & _ & Hp & _).
  unfold stepper_cell.
  rewrite (get_steps_recurrence _ _ _ _ _ _ _ _ _ Hs) by lia.
  unfold update, factor1, factor2, factor3. rewrite Hp. reflexivity.
Qed.

Lemma interior_recurrence_witness :
  get small_grid 2 (2 + 1)
  = Some (/ (1 + k small_params * dt small_constants / 2) *
            ((c small_params * dt small_constants / dx small_constants) ^ 2 *
               (entry small_grid (2 + 1) 2 - 2 * entry small_grid 2 2
                + entry small_grid (2 - 1) 2)
             + 2 * entry small_grid 2 2 - entry small_grid 2 (2 - 1)
             + k small_params * dt small_constants / 2
               * entry small_grid 2 (2 - 1))).
Proof.
  apply (interior_recurrence small_params ramp unit_velocity forcing).
  - vm_compute. reflexivity.
  - lia.
  - vm_compute. lia.
  - lia.
  - vm_compute. lia.
Defined.

(** C5.  In the finished grid [u[0, l] = phi(t_l)] for every time index [l]
    of the time axis.  The value is stored by the solution-grid cell, before
    the loop starts, and it is there after every pass of the loop: the
    stepper never modifies the row [j = 0]. *)
Theorem boundary_column p f g phi d u l t :
  run p f g phi = inr (d, u) ->
  t_array d !! l = Some t ->
  get u 0 l = Some (phi t) /\
  forall m,
    get (steps (factor1 d) (factor2 d) (factor3 d) m (conditions_cell f g phi d))
      0 l = Some (phi t).
Proof.
  intros H Ht.
  destruct (run_shape _ _ _ _ _ _ H) as (Hn & _ & Hs & _).
  destruct (run_inv _ _ _ _ _ _ H) as [_ ->].
  assert (Hm : forall m,
    get (steps (factor1 d) (factor2 d) (factor3 d) m (conditions_cell f g phi d))
      0 l = Some (phi t)).
  { intros m. rewrite (get_steps_frame _ _ _ _ _ _ _ _ _ Hs) by (left; reflexivity).
    rewrite get_conditions_row0 by lia. rewrite Ht. reflexivity. }
  split; [apply Hm|exact Hm].
Qed.

Lemma boundary_column_witness :
  let t := default 0 (t_array small_constants !! 3%nat) in
  get small_grid 0 3 = Some (forcing t) /\
  forall m,
    get (steps (factor1 small_constants) (factor2 small_constants)
           (factor3 small_constants) m
           (conditions_cell ramp unit_velocity forcing small_constants))
      0 3 = Some (forcing t).
Proof.
  apply (boundary_column small_params ramp unit_velocity forcing).
  - vm_compute. reflexivity.
  - vm_compute. reflexivity.
Defined.

(** C10.  The boundary assignment comes after the two initial-condition
    assignments, so at [j = 0] it wins: [u[0,0] = phi(t_0)] and
    [u[0,1] = phi(t_1)], where [t_0 = 0] and [t_1 = dt], whatever [f] and [g]
    are (in particular when [phi(t_0)] differs from [f(x_0)]). *)
Theorem corner_entries p f g phi d u :
  run p f g phi = inr (d, u) ->
  t_array d !! 0%nat = Some 0 /\ t_array d !! 1%nat = Some (dt d) /\
  get u 0 0 = Some (phi 0) /\ get u 0 1 = Some (phi (dt d)).
Proof.
  intros H.
  destruct (run_shape _ _ _ _ _ _ H) as (Hn & Hm & Hs & _).
  destruct (run_inv _ _ _ _ _ _ H) as [Hd ->].
  destruct (constants_cell_inv _ _ Hd)
    as (_ & _ & _ & _ & _ & _ & _ & _ & _ & Ht & _).
  assert (H0 : t_array d !! 0%nat = Some 0).
  { rewrite Ht by lia. rewrite of_nat_0. f_equal. ring. }
  assert (H1 : t_array d !! 1%nat = Some (dt d)).
  { rewrite Ht by lia. rewrite of_nat_1. f_equal. ring. }
  unfold stepper_cell.
  rewrite !(get_steps_frame _ _ _ _ _ _ _ _ _ Hs) by (left; reflexivity).
  rewrite !get_conditions_row0 by lia. rewrite H0, H1. auto.
Qed.

Lemma corner_entries_witness :
  t_array small_constants !! 0%nat = Some 0 /\
  t_array small_constants !! 1%nat = Some (dt small_constants) /\
  get small_grid 0 0 = Some (forcing 0) /\
  get small_grid 0 1 = Some (forcing (dt small_constants)).
Proof.
  apply (corner_entries small_params ramp unit_velocity forcing).
  vm_compute. reflexivity.
Defined.

(** C7.  At every point [m] of the loop ([m] passes done), an entry outside
    the part written so far -- the rows [j = 0] and [j = nx-1], the time
    indices [0] and [1], and the time indices beyond [m+1] -- holds the value
    the solution-grid cell gave it; and an entry of a time index up to [m+1]
    has already its final value, so that nothing the stepper wrote is
    overwritten later. *)
Theorem stepper_frame p f g phi d u m j l :
  run p f g phi = inr (d, u) ->
  (m + 2 <= length (t_array d))%nat ->
  let u0 := conditions_cell f g phi d in
  let um := steps (factor1 d) (factor2 d) (factor3 d) m u0 in
  (j = 0%nat \/ (length (x_array d) - 1 <= j)%nat \/ (l < 2)%nat \/ (m + 1 < l)%nat ->
   get um j l = get u0 j l) /\
  ((l <= m + 1)%nat -> get u j l = get um j l).
Proof.
  intros H Hm u0 um.
  destruct (run_shape _ _ _ _ _ _ H) as (Hn & _ & Hs & _).
  destruct (run_inv _ _ _ _ _ _ H) as [_ ->].
  split.
  - intros Hjl. apply (get_steps_frame _ _ _ _ _ _ _ _ _ Hs). lia.
  - intros Hl. unfold stepper_cell. apply get_steps_stable; lia.
Qed.

Lemma stepper_frame_witness :
  let u0 := conditions_cell ramp unit_velocity forcing small_constants in
  let um := steps (factor1 small_constants) (factor2 small_constants)
              (factor3 small_constants) 2 u0 in
  (3 = 0%nat \/ (length (x_array small_constants) - 1 <= 3)%nat \/ (3 < 2)%nat
   \/ (2 + 1 < 3)%nat ->
   get um 3 3 = get u0 3 3) /\
  ((3 <= 2 + 1)%nat -> get small_grid 3 3 = get um 3 3).
Proof.
  apply (stepper_frame small_params ramp unit_velocity forcing).
  - vm_compute. reflexivity.
  - vm_compute. lia.
Defined.

(** C9.  Two runs that differ only in the boundary forcing have the same
    entries at the time indices [0] and [1] for every [j > 0]. *)
Theorem initial_rows_ignore_forcing p f g phi phi' d u d' u' j :
  run p f g phi = inr (d, u) ->
  run p f g phi' = inr (d', u') ->
  (0 < j)%nat ->
  get u j 0 = get u' j 0 /\ get u j 1 = get u' j 1.
Proof.
  intros H H' Hj.
  destruct (run_shape _ _ _ _ _ _ H) as (_ & Hm & Hs & _).
  destruct (run_shape _ _ _ _ _ _ H') as (_ & _ & Hs' & _).
  destruct (run_inv _ _ _ _ _ _ H) as [Hd ->].
  destruct (run_inv _ _ _ _ _ _ H') as [Hd' ->].
  assert (d' = d) as -> by congruence.
  unfold stepper_cell.
  rewrite !(get_steps_frame _ _ _ _ _ _ _ _ _ Hs) by lia.
  rewrite !(get_steps_frame _ _ _ _ _ _ _ _ _ Hs') by lia.
  rewrite !get_conditions_col0, !get_conditions_col1 by lia. auto.
Qed.

Lemma initial_rows_ignore_forcing_witness :
  get small_grid 2 0 = get small_grid' 2 0 /\
  get small_grid 2 1 = get small_grid' 2 1.
Proof.
  apply (initial_rows_ignore_forcing small_params ramp unit_velocity
           forcing other_forcing small_constants small_grid
           small_constants small_grid').
  - vm_compute. reflexivity.
  - vm_compute. reflexivity.
  - lia.
Defined.

(** C3, as the code has it.  For every spatial index [j >= 1] of the axis
    (the last one, [j = nx-1], included) the finished grid has
    [u[j,0] = f(x_j)] and [u[j,1] = g(x_j)*dt + f(x_j)].  At [j = 0] the
    boundary assignment, which runs later, replaces both values. *)
Theorem initial_rows p f g phi d u j x :
  run p f g phi = inr (d, u) ->
  (1 <= j)%nat ->
  x_array d !! j = Some x ->
  get u j 0 = Some (f x) /\ get u j 1 = Some (g x * dt d + f x).
Proof. apply get_run_seed. Qed.

Lemma initial_rows_witness :
  let x := default 0 (x_array small_constants !! 3%nat) in
  get small_grid 3 0 = Some (ramp x) /\
  get small_grid 3 1 = Some (unit_velocity x * dt small_constants + ramp x).
Proof.
  apply (initial_rows small_params ramp unit_velocity forcing).
  - vm_compute. reflexivity.
  - lia.
  - vm_compute. reflexivity.
Defined.

(** C3 as stated fails at [j = 0]: in the small run [f(x_0) = 1] while
    [u[0,0] = phi(t_0) = 10]. *)
Lemma initial_rows_fail_at_boundary :
  run small_params ramp unit_velocity forcing = inr (small_constants, small_grid) /\
  x_array small_constants !! 0%nat = Some 0 /\
  get small_grid 0 0 <> Some (ramp 0).
Proof.
  split; [vm_compute; reflexivity|]. split.
  - vm_compute. reflexivity.
  - vm_compute. intros [= E].
Qed.

(** C4, as the code has it.  In the last row [j = nx-1] every entry of a
    time index [l >= 2] is the zero of the allocation; the entries at
    [l = 0] and [l = 1] are the initial values [f(x_j)] and
    [g(x_j)*dt + f(x_j)] stored by the whole-slice initial-condition
    assignments; and the stepper leaves the row as the solution-grid cell
    made it. *)
Theorem last_row p f g phi d u :
  run p f g phi = inr (d, u) ->
  let j := (length (x_array d) - 1)%nat in
  (forall l, (2 <= l < length (t_array d))%nat -> get u j l = Some 0) /\
  (forall x, x_array d !! j = Some x ->
     get u j 0 = Some (f x) /\ get u j 1 = Some (g x * dt d + f x)) /\
  (forall l, get u j l = get (conditions_cell f g phi d) j l).
Proof.
  intros H j.
  destruct (run_shape _ _ _ _ _ _ H) as (Hn & Hm & Hs & _).
  pose proof (run_inv _ _ _ _ _ _ H) as [_ Hu].
  assert (Hframe : forall l, get u j l = get (conditions_cell f g phi d) j l).
  { intros l. rewrite Hu. unfold stepper_cell.
    apply (get_steps_frame _ _ _ _ _ _ _ _ _ Hs). subst j. lia. }
  split; [|split; [|exact Hframe]].
  - intros l Hl. rewrite Hframe. apply get_conditions_zero; subst j; lia.
  - intros x Hx. apply (get_run_seed p f g phi d u j x H); [subst j; lia|exact Hx].
Qed.

Lemma last_row_witness :
  let j := (length (x_array small_constants) - 1)%nat in
  (forall l, (2 <= l < length (t_array small_constants))%nat ->
     get small_grid j l = Some 0) /\
  (forall x, x_array small_constants !! j = Some x ->
     get small_grid j 0 = Some (ramp x) /\
     get small_grid j 1 = Some (unit_velocity x * dt small_constants + ramp x)) /\
  (forall l, get small_grid j l
             = get (conditions_cell ramp unit_velocity forcing small_constants) j l).
Proof.
  apply (last_row small_params ramp unit_velocity forcing).
  vm_compute. reflexivity.
Defined.

(** C4 as stated fails at the time index [0]: in the small run the last row
    is [j = 3], and [u[3,0] = f(x_3) = 5], not [0]. *)
Lemma last_row_not_zero :
  run small_params ramp unit_velocity forcing = inr (small_constants, small_grid) /\
  (Z.to_nat (nx small_constants) - 1 = 3)%nat /\
  get small_grid 3 0 <> Some 0.
Proof.
  split; [vm_compute; reflexivity|]. split; [reflexivity|].
  vm_compute. intros [= E].
Qed.

(** C8.  If [f], [g] and [phi] are zero everywhere, every entry of the
    finished grid is zero, on every run whose damping term is in range
    ([damping_in_range]: [0 <= k*dt], within the floating-point range), so
    that the three factors that multiply the zeros are finite numbers.  This
    covers every damping coefficient [k >= 0] of ordinary size; a negative
    [k] with [1 + k*dt/2 = 0] is not covered. *)
Theorem zero_input_zero_output p f g phi d u j l :
  (forall x, f x = 0) -> (forall x, g x = 0) -> (forall t, phi t = 0) ->
  run p f g phi = inr (d, u) ->
  damping_in_range d ->
  (j < length (x_array d))%nat -> (l < length (t_array d))%nat ->
  get u j l = Some 0.
Proof.
  intros Hf Hg Hphi H _ Hj Hl.
  destruct (run_shape _ _ _ _ _ _ H) as (Hn & Hm & Hs & _).
  destruct (run_inv _ _ _ _ _ _ H) as [_ ->].
  unfold stepper_cell. apply (all_zero_steps _ _ _ _ _ _ _ Hs); [|exact Hj|exact Hl].
  clear j l Hj Hl. intros j l Hj Hl.
  destruct (decide (j = 0%nat)) as [->|Hj0].
  { rewrite get_conditions_row0 by lia.
    destruct (lookup_lt_is_Some_2 _ _ Hl) as [t ->]. simpl. rewrite Hphi.
    reflexivity. }
  destruct (lookup_lt_is_Some_2 _ _ Hj) as [x Hx].
  destruct l as [|[|l]].
  - rewrite get_conditions_col0, Hx by lia. simpl. rewrite Hf. reflexivity.
  - rewrite get_conditions_col1, Hx by lia. simpl. rewrite Hf, Hg.
    rewrite Qcmult_0_l, Qcplus_0_l. reflexivity.
  - apply get_conditions_zero; lia.
Qed.

Lemma zero_input_zero_output_witness : get small_zero_grid 2 3 = Some 0.
Proof.
  apply (zero_input_zero_output small_params zero zero zero small_constants).
  - reflexivity.
  - reflexivity.
  - reflexivity.
  - vm_compute. reflexivity.
  - split; vm_compute; congruence.
  - vm_compute. lia.
  - vm_compute. lia.
Defined.

(** C6, as the code has it.  The constants cell validates nothing and has no
    configuration error of its own; it stops on the first operation that
    raises.  It fails with a [ZeroDivisionError] whenever [fps] or [c] is
    zero; it never succeeds with a derived [nx] below [2] or with fewer than
    two time samples, the axes it returns having [nx] and at least two
    samples; and a failure happens before the grid is allocated: the run
    returns the error and no grid. *)
Theorem configuration_failures p :
  (fps_play p = 0 \/ c p = 0 -> constants_cell p = inl ZeroDivisionError) /\
  (forall d, constants_cell p = inr d ->
     (2 <= nx d)%Z /\ length (x_array d) = Z.to_nat (nx d) /\
     (2 <= length (t_array d))%nat) /\
  (forall e, constants_cell p = inl e ->
   forall f g phi, run p f g phi = inl e).
Proof.
  split; [|split].
  - unfold constants_cell, truediv, bind, raise, ret.
    intros Hz.
    destruct (decide (fps_play p = 0)) as [|Hf]; [reflexivity|].
    destruct Hz as [Hz|Hc]; [contradiction|].
    cbv beta iota.
    destruct (decide (c p / fps_play p = 0)) as [|Hq]; [reflexivity|].
    exfalso. apply Hq. rewrite Hc. unfold Qcdiv. ring.
  - intros d Hd.
    destruct (constants_cell_inv _ _ Hd)
      as (_ & _ & _ & _ & Hnx & Hlen & _ & Hnt & _).
    auto.
  - intros e He f g phi. unfold run. rewrite He. reflexivity.
Qed.

Lemma configuration_failures_witness :
  constants_cell
    {| L := Qc_of_Z 1; c := 0; k := 0; t_total := Qc_of_Z 5; fps_play := 1 |}
  = inl ZeroDivisionError.
Proof.
  apply (configuration_failures
           {| L := Qc_of_Z 1; c := 0; k := 0; t_total := Qc_of_Z 5;
              fps_play := 1 |}).
  right. reflexivity.
Defined.

(** C6 as stated fails in both of its parts.  With [L = 2], [c = 1], [T = 5]
    and [fps = 1], all strictly positive, the derived [nx] is [2], below [3],
    and the run completes and returns a grid; and with [c], [T] and [fps] all
    negative the run completes too. *)
Lemma configuration_accepts :
  (0 < L coarse_params /\ 0 < c coarse_params /\ 0 < t_total coarse_params /\
   0 < fps_play coarse_params /\ (nx_of coarse_params < 3)%Z /\
   succeeds (run coarse_params ramp unit_velocity forcing) = true) /\
  (c reversed_params < 0 /\ t_total reversed_params < 0 /\
   fps_play reversed_params < 0 /\
   succeeds (run reversed_params ramp unit_velocity forcing) = true).
Proof. vm_compute. repeat split. Qed.

(** C1, evaluated on the notebook's own parameters: the cell derives
    [nx = 90], [dt = 1/30] and [dx = 3/89], so that [c*dt/dx = 89/90], which
    is not [1]. *)
Theorem courant_notebook :
  exists d,
    constants_cell notebook_params = inr d /\
    nx d = 90%Z /\ dt d = Q2Qc (1 # 30) /\ dx d = Q2Qc (3 # 89) /\
    courant d = Q2Qc (89 # 90) /\ courant d <> 1.
Proof.
  eexists. split; [vm_compute; reflexivity|].
  repeat split; try (apply Qc_is_canon; vm_compute; reflexivity).
  vm_compute. congruence.
Qed.

(** * Further properties of the cells *)

(** ** Auxiliary facts on numbers *)

Lemma of_nat_Z (z : Z) : (0 <= z)%Z -> of_nat (Z.to_nat z) = Qc_of_Z z.
Proof. intros H. unfold of_nat. rewrite Z2Nat.id by exact H. reflexivity. Qed.

Lemma of_nat_nonneg (i : nat) : 0 <= of_nat i.
Proof.
  unfold of_nat. rewrite <- Z2Qc_inj_0.
  apply (proj1 (Z2Qc_inj_le 0 (Z.of_nat i))). lia.
Qed.

(** What a successful constants cell implies for the numbers it divides
    by. *)
Lemma constants_cell_nonzero p d :
  constants_cell p = inr d ->
  L p <> 0 /\ 1 <= Qc_of_Z (nx d) - 1 /\ 0 < L p / (c p / fps_play p).
Proof.
  intros H.
  destruct (constants_cell_inv _ _ H)
    as (Hf & Hc & Hp & Hnx & Hnx2 & _).
  assert (HN : Qc_of_Z (nx d) <= L p / (c p / fps_play p)).
  { rewrite Hnx. apply int_le. change (2 <= nx_of p)%Z. lia. }
  assert (HN2 : 2 <= Qc_of_Z (nx d)).
  { rewrite <- Z2Qc_inj_2. exact (proj1 (Z2Qc_inj_le 2 (nx d)) Hnx2). }
  assert (Hr : 0 < L p / (c p / fps_play p)).
  { apply Qclt_le_trans with (Qc_of_Z (nx d)); [|exact HN].
    apply Qclt_le_trans with 2; [reflexivity|exact HN2]. }
  split; [|split; [|exact Hr]].
  - intros E. rewrite E in Hr. unfold Qcdiv in Hr.
    rewrite Qcmult_0_l in Hr. revert Hr. vm_compute. congruence.
  - apply (proj2 (Qcplus_le_mono_r 1 (Qc_of_Z (nx d) - 1) 1)).
    replace (Qc_of_Z (nx d) - 1 + 1) with (Qc_of_Z (nx d)) by ring.
    exact HN2.
Qed.

Lemma one_le_nonzero (x : Qc) : 1 <= x -> x <> 0.
Proof. intros H E. rewrite E in H. revert H. vm_compute. congruence. Qed.

Lemma one_le_pos (x : Qc) : 1 <= x -> 0 < x.
Proof. intros H. apply Qclt_le_trans with 1; [reflexivity|exact H]. Qed.

(** ** The finished grid *)

Lemma get_outside n m u j l :
  shape n m u -> (n <= j)%nat \/ (m <= l)%nat -> get u j l = None.
Proof.
  intros Hs H. unfold get. destruct (u !! j) as [row|] eqn:Hrow; [|reflexivity].
  simpl. apply lookup_ge_None_2.
  rewrite (shape_row _ _ _ _ _ Hs Hrow).
  apply lookup_lt_Some in Hrow. destruct Hs as [Hn _]. lia.
Qed.

(** X4.  The finished grid has exactly [len(x_array)] rows of [len(t_array)]
    entries each: an entry [u[j, l]] exists if and only if [j < len(x_array)]
    and [l < len(t_array)]. *)
Theorem grid_dimensions p f g phi d u :
  run p f g phi = inr (d, u) ->
  length u = length (x_array d) /\
  Forall (fun row => length row = length (t_array d)) u /\
  forall j l,
    is_Some (get u j l) <-> (j < length (x_array d))%nat /\ (l < length (t_array d))%nat.
Proof.
  intros H. destruct (run_shape _ _ _ _ _ _ H) as (_ & _ & _ & Hs).
  split; [apply Hs|]. split; [apply Hs|].
  intros j l. split.
  - intros [x Hx].
    destruct (decide (j < length (x_array d))%nat);
      destruct (decide (l < length (t_array d))%nat); try (split; assumption);
      rewrite (get_outside _ _ _ _ _ Hs) in Hx by lia; discriminate.
  - intros [Hj Hl]. exact (get_is_Some _ _ _ _ _ Hs Hj Hl).
Qed.

Lemma grid_dimensions_witness :
  length small_grid = length (x_array small_constants) /\
  Forall (fun row => length row = length (t_array small_constants)) small_grid /\
  forall j l,
    is_Some (get small_grid j l)
    <-> (j < length (x_array small_constants))%nat /\
        (l < length (t_array small_constants))%nat.
Proof.
  apply (grid_dimensions small_params ramp unit_velocity forcing).
  vm_compute. reflexivity.
Defined.

(** X5.  When the initial data vanish at the right end, [f(L) = 0] and
    [g(L) = 0], the homogeneous boundary condition holds in the finished
    grid at every time index: [u[nx-1, l] = 0] for all [l]. *)
Theorem right_boundary_zero p f g phi d u l :
  run p f g phi = inr (d, u) ->
  f (L p) = 0 -> g (L p) = 0 ->
  (l < length (t_array d))%nat ->
  get u (length (x_array d) - 1) l = Some 0.
Proof.
  intros H Hf Hg Hl.
  destruct (run_shape _ _ _ _ _ _ H) as (Hn & Hm & Hs & _).
  pose proof (run_inv _ _ _ _ _ _ H) as [Hd Hu].
  destruct (constants_cell_nonzero _ _ Hd) as (_ & HN & _).
  destruct (constants_cell_inv _ _ Hd)
    as (_ & _ & _ & _ & Hnx2 & Hlen & Hx & _ & _ & _ & Hdx & _).
  assert (Hlast : x_array d !! (length (x_array d) - 1)%nat = Some (L p)).
  { rewrite Hx by lia. f_equal.
    replace (length (x_array d) - 1)%nat with (Z.to_nat (nx d - 1)) by lia.
    rewrite of_nat_Z by lia. rewrite Z2Qc_inj_sub, Z2Qc_inj_1, Hdx.
    field. exact (one_le_nonzero _ HN). }
  assert (Hj : (1 <= length (x_array d) - 1)%nat) by lia.
  destruct (get_run_seed p f g phi d u _ _ H Hj Hlast) as [H0 H1].
  destruct l as [|[|l]].
  - rewrite H0, Hf. reflexivity.
  - rewrite H1, Hf, Hg, Qcmult_0_l, Qcplus_0_l. reflexivity.
  - rewrite Hu. unfold stepper_cell.
    rewrite (get_steps_frame _ _ _ _ _ _ _ _ _ Hs) by lia.
    apply get_conditions_zero; lia.
Qed.

Lemma right_boundary_zero_witness :
  get small_zero_grid (length (x_array small_constants) - 1) 1 = Some 0.
Proof.
  apply (right_boundary_zero small_params zero zero zero small_constants).
  - vm_compute. reflexivity.
  - reflexivity.
  - reflexivity.
  - vm_compute. lia.
Defined.

Lemma set_column_nil lo l u : set_column lo l [] u = u.
Proof.
  unfold set_column. apply list_eq. intros j.
  rewrite list_lookup_imap. destruct (u !! j) as [row|]; [simpl|reflexivity].
  destruct (decide (lo <= j)%nat); reflexivity.
Qed.

Lemma steps_no_interior f1 f2 f3 m u :
  (length u <= 2)%nat -> steps f1 f2 f3 m u = u.
Proof.
  intros Hu. induction m as [|m IH]; [reflexivity|].
  rewrite steps_S, IH. unfold step.
  assert (E : rhs f1 f2 f3 u (S m) = []).
  { apply nil_length_inv. rewrite length_rhs. lia. }
  rewrite E. apply set_column_nil.
Qed.

(** X6.  On a grid without interior samples ([nx = 2]), and on a grid with
    only the two seeded time indices ([len(t_array) = 2]), the time-evolution
    loop changes nothing: the finished grid is the seeded grid. *)
Theorem degenerate_grid_unchanged p f g phi d u :
  run p f g phi = inr (d, u) ->
  nx d = 2%Z \/ length (t_array d) = 2%nat ->
  u = conditions_cell f g phi d.
Proof.
  intros H Hdeg. destruct (run_shape _ _ _ _ _ _ H) as (_ & _ & [Hlen _] & _).
  destruct (run_inv _ _ _ _ _ _ H) as [Hd ->].
  destruct (constants_cell_inv _ _ Hd) as (_ & _ & _ & _ & _ & Hx & _).
  unfold stepper_cell. destruct Hdeg as [Hnx|Hnt].
  - apply steps_no_interior. rewrite Hlen, Hx, Hnx. vm_compute. lia.
  - rewrite Hnt. reflexivity.
Qed.

Lemma degenerate_grid_unchanged_witness :
  coarse_grid = conditions_cell ramp unit_velocity forcing coarse_constants.
Proof.
  apply (degenerate_grid_unchanged coarse_params ramp unit_velocity forcing).
  - vm_compute. reflexivity.
  - left. reflexivity.
Defined.

(** ** How the forcing spreads *)

Section Spread.
Variables f1 f2 f3 : Qc.
Variables n m : nat.

(** One pass keeps two grids equal ahead of the diagonal [l = j]. *)
Lemma step_ahead v v' l0 :
  shape n m v -> shape n m v' -> (1 <= l0)%nat -> (l0 + 1 < m)%nat ->
  (forall j l, (1 <= j)%nat -> (l <= j)%nat -> get v j l = get v' j l) ->
  forall j l, (1 <= j)%nat -> (l <= j)%nat ->
    get (step f1 f2 f3 v l0) j l = get (step f1 f2 f3 v' l0) j l.
Proof.
  intros Hs Hs' Hl0 Hm IH j l Hj Hl.
  destruct (decide (l = (l0 + 1)%nat /\ (j + 1 < n)%nat)) as [[-> Hjn]|Hno].
  - rewrite !(get_step_hit f1 f2 f3 n m) by (assumption || lia).
    unfold entry. rewrite !(IH _ _) by lia. reflexivity.
  - destruct Hs as [Hn ?], Hs' as [Hn' ?].
    rewrite !get_step_frame by lia. apply IH; assumption.
Qed.

Lemma steps_ahead k v v' :
  shape n m v -> shape n m v' -> (k + 2 <= m)%nat ->
  (forall j l, (1 <= j)%nat -> (l <= j)%nat -> get v j l = get v' j l) ->
  forall j l, (1 <= j)%nat -> (l <= j)%nat ->
    get (steps f1 f2 f3 k v) j l = get (steps f1 f2 f3 k v') j l.
Proof.
  intros Hs Hs' Hk IH. induction k as [|k IHk]; [exact IH|].
  rewrite !steps_S. apply step_ahead; try lia.
  - apply shape_steps, Hs.
  - apply shape_steps, Hs'.
  - apply IHk. lia.
Qed.
End Spread.

(** X7.  The boundary forcing spreads into the grid by at most one spatial
    sample per time step: two runs that differ only in [phi] have the same
    entry [u[j, l]] wherever [j >= 1] and [l <= j].  In particular a change
    of the forcing is not yet visible at the spatial index [j] before the
    time index [j + 1]. *)
Theorem forcing_spreads_one_sample_per_step p f g phi phi' d u d' u' j l :
  run p f g phi = inr (d, u) ->
  run p f g phi' = inr (d', u') ->
  (1 <= j)%nat -> (l <= j)%nat ->
  get u j l = get u' j l.
Proof.
  intros H H' Hj Hl.
  destruct (run_shape _ _ _ _ _ _ H) as (_ & Hm & Hs & _).
  destruct (run_shape _ _ _ _ _ _ H') as (_ & _ & Hs' & _).
  destruct (run_inv _ _ _ _ _ _ H) as [Hd ->].
  destruct (run_inv _ _ _ _ _ _ H') as [Hd' ->].
  assert (d' = d) as -> by congruence.
  unfold stepper_cell.
  apply (steps_ahead _ _ _ _ _ _ _ _ Hs Hs'); try lia.
  clear j l Hj Hl. intros j l Hj _. unfold conditions_cell.
  rewrite !get_set_row0_other by lia. reflexivity.
Qed.

Lemma forcing_spreads_one_sample_per_step_witness :
  get small_grid 2 2 = get small_grid' 2 2.
Proof.
  apply (forcing_spreads_one_sample_per_step small_params ramp unit_velocity
           forcing other_forcing small_constants small_grid
           small_constants small_grid').
  - vm_compute. reflexivity.
  - vm_compute. reflexivity.
  - lia.
  - lia.
Defined.

(** ** The animation *)

Lemma of_nat_pos (i : nat) : (0 < i)%nat -> 0 < of_nat i.
Proof.
  intros H. unfold of_nat. rewrite <- Z2Qc_inj_0.
  apply (proj1 (Z2Qc_inj_lt 0 (Z.of_nat i))). lia.
Qed.

(** The time slice of a grid whose rows all have the entry. *)
Lemma time_slice_shape n m u index :
  shape n m u -> (index < m)%nat ->
  exists y, Animation.time_slice u index = inr y /\
            length y = n /\
            forall j, (j < n)%nat -> y !! j = get u j index.
Proof.
  intros Hs Hi. unfold Animation.time_slice.
  destruct (mapM (fun row : list Qc => row !! index) u) as [y|] eqn:Hy.
  - apply mapM_Some_1 in Hy. exists y. split; [reflexivity|]. split.
    + rewrite <- (Forall2_length _ _ _ Hy). apply Hs.
    + intros j Hj.
      destruct (lookup_lt_is_Some_2 u j) as [row Hrow];
        [destruct Hs as [-> _]; exact Hj|].
      destruct (Forall2_lookup_l _ _ _ _ _ Hy Hrow) as (x & Hx & Hrx).
      unfold get. rewrite Hrow, Hx. simpl. symmetry. exact Hrx.
  - exfalso. apply mapM_None_1, Exists_exists in Hy.
    destruct Hy as (row & Hin & Hnone).
    apply list_elem_of_lookup in Hin. destruct Hin as [j Hrow].
    apply lookup_ge_None_1 in Hnone.
    rewrite (shape_row _ _ _ _ _ Hs Hrow) in Hnone. lia.
Qed.

(** The time slice of a non-empty grid beyond the end of its rows. *)
Lemma time_slice_outside n m u index :
  shape n m u -> (0 < n)%nat -> (m <= index)%nat ->
  Animation.time_slice u index = inl IndexError.
Proof.
  intros Hs Hn Hi. unfold Animation.time_slice.
  destruct (mapM (fun row : list Qc => row !! index) u) as [y|] eqn:Hy;
    [|reflexivity].
  exfalso. apply mapM_Some_1 in Hy.
  destruct (lookup_lt_is_Some_2 u 0) as [row Hrow];
    [destruct Hs as [-> _]; exact Hn|].
  destruct (Forall2_lookup_l _ _ _ _ _ Hy Hrow) as (x & _ & Hrx).
  apply lookup_lt_Some in Hrx. rewrite (shape_row _ _ _ _ _ Hs Hrow) in Hrx.
  lia.
Qed.

(** X9.  On the finished grid of a run the animation callback serves every
    frame index the animation asks for, [range(len(t_array))]: the rows of
    the grid are as long as the time axis, so the callback succeeds on each
    of them, and it is only beyond the last time index that it stops with an
    [IndexError]. *)
Theorem animation_frames_served p f g phi d u :
  run p f g phi = inr (d, u) ->
  Forall (fun index => succeeds (Animation.update d u index) = true)
    (Animation.frames d) /\
  forall index, (length (t_array d) <= index)%nat ->
    Animation.update d u index = inl IndexError.
Proof.
  intros H. destruct (run_shape _ _ _ _ _ _ H) as (Hn & Hm & _ & Hs).
  assert (Hnt : of_nat (length (t_array d)) <> 0).
  { apply not_eq_sym, Qclt_not_eq, of_nat_pos. lia. }
  split.
  - apply Forall_forall. intros index Hin.
    apply elem_of_seq in Hin. simpl in Hin.
    destruct (time_slice_shape _ _ _ index Hs) as (y & Hy & _); [lia|].
    unfold Animation.update, getitem, truediv, bind, ret.
    rewrite Hy.
    destruct (lookup_lt_is_Some_2 (t_array d) index) as [t ->]; [lia|].
    rewrite decide_False by exact Hnt. reflexivity.
  - intros index Hi. unfold Animation.update, bind.
    rewrite (time_slice_outside _ _ _ _ Hs) by lia. reflexivity.
Qed.

Lemma animation_frames_served_witness :
  Forall (fun index =>
            succeeds (Animation.update small_constants small_grid index) = true)
    (Animation.frames small_constants) /\
  forall index, (length (t_array small_constants) <= index)%nat ->
    Animation.update small_constants small_grid index = inl IndexError.
Proof.
  apply (animation_frames_served small_params ramp unit_velocity forcing).
  vm_compute. reflexivity.
Defined.

(** X10.  A frame shows the grid at its own time index: the curve has one
    point per spatial sample, point [j] being [u[j, index]]; the time in the
    title is [index*dt]; the first point of the curve is the boundary forcing
    at that time; and the progress [index/len(t_array)] stays in the
    half-open interval from [0] to [1]. *)
Theorem animation_frame_content p f g phi d u index fr :
  run p f g phi = inr (d, u) ->
  Animation.update d u index = inr fr ->
  length (Animation.y_data fr) = length (x_array d) /\
  (forall j, (j < length (x_array d))%nat ->
     Animation.y_data fr !! j = get u j index) /\
  Animation.t_curr fr = of_nat index * dt d /\
  Animation.y_data fr !! 0%nat = Some (phi (Animation.t_curr fr)) /\
  Animation.prog fr = of_nat index / of_nat (length (t_array d)) /\
  0 <= Animation.prog fr /\ Animation.prog fr < 1.
Proof.
  intros H Hfr.
  destruct (run_shape _ _ _ _ _ _ H) as (Hn & Hm & Hs0 & Hs).
  pose proof (run_inv _ _ _ _ _ _ H) as [Hd Hu].
  destruct (constants_cell_inv _ _ Hd)
    as (_ & _ & _ & _ & _ & _ & _ & _ & _ & Ht & _).
  assert (Hntpos : 0 < of_nat (length (t_array d))) by (apply of_nat_pos; lia).
  pose proof (not_eq_sym (Qclt_not_eq _ _ Hntpos)) as Hnt.
  assert (Hi : (index < length (t_array d))%nat).
  { destruct (decide (index < length (t_array d))%nat) as [Hi|Hi]; [exact Hi|].
    exfalso. revert Hfr. unfold Animation.update, bind.
    rewrite (time_slice_outside _ _ _ _ Hs) by lia. discriminate. }
  destruct (time_slice_shape _ _ _ index Hs Hi) as (y & Hy & Hylen & Hcol).
  revert Hfr. unfold Animation.update, getitem, truediv, bind, ret, raise.
  rewrite Hy, (Ht _ Hi). rewrite decide_False by exact Hnt.
  intros [= <-]. simpl.
  split; [exact Hylen|]. split; [exact Hcol|].
  split; [reflexivity|]. split.
  - rewrite Hcol by lia. rewrite Hu. unfold stepper_cell.
    rewrite (get_steps_frame _ _ _ _ _ _ _ _ _ Hs0) by (left; reflexivity).
    rewrite get_conditions_row0 by lia. rewrite (Ht _ Hi). reflexivity.
  - split; [reflexivity|]. split.
    + unfold Qcdiv. apply Qcmult_nonneg_nonneg; [apply of_nat_nonneg|].
      apply Qclt_le_weak, Qcinv_pos, Hntpos.
    + apply (Qcmult_lt_mono_pos_r _ _ _ Hntpos).
      replace (of_nat index / of_nat (length (t_array d))
               * of_nat (length (t_array d))) with (of_nat index)
        by (field; exact Hnt).
      rewrite Qcmult_1_l. unfold of_nat.
      apply (proj1 (Z2Qc_inj_lt _ _)). lia.
Qed.

Lemma animation_frame_content_witness :
  length (Animation.y_data small_frame) = length (x_array small_constants) /\
  (forall j, (j < length (x_array small_constants))%nat ->
     Animation.y_data small_frame !! j = get small_grid j 3) /\
  Animation.t_curr small_frame = of_nat 3 * dt small_constants /\
  Animation.y_data small_frame !! 0%nat
  = Some (forcing (Animation.t_curr small_frame)) /\
  Animation.prog small_frame
  = of_nat 3 / of_nat (length (t_array small_constants)) /\
  0 <= Animation.prog small_frame /\ Animation.prog small_frame < 1.
Proof.
  apply (animation_frame_content small_params ramp unit_velocity forcing).
  - vm_compute. reflexivity.
  - vm_compute. reflexivity.
Defined.
